(** * EntityRefLink: entity reference link with a hover preview

    A shallow embedding of
    [plugins/catalog-react/src/components/EntityRefLink/EntityRefLink.tsx]:
    the inline normalisation of the [entityRef] prop performed by
    [EntityRefLink], and the [PeekAheadPopover] component with its
    [useAsyncFn] / [useEffect] fetch-on-hover logic and its conditional
    rendering.

    JavaScript values are modelled as follows: strings are [string],
    [T | undefined] is [option T], a thrown exception is the [Throw] case of
    [result], a JSX expression slot holds a [JsValue], and the hook state of
    one mounted component is an explicit record threaded through a step
    function. *)

From Stdlib Require Import Ascii.
From stdpp Require Import base option list strings pretty gmap.

(** ** Exceptions *)

(** A JavaScript [Error] object; only its [message] is observed. *)
Record Error := { message : string }.

(** The outcome of code that may throw. *)
Inductive result (A : Type) : Type :=
| Ok (a : A)
| Throw (e : Error).
Arguments Ok {A} a.
Arguments Throw {A} e.

#[global] Instance result_ret : MRet result := @Ok.
#[global] Instance result_bind : MBind result := fun A B f r =>
  match r with
  | Ok a => f a
  | Throw e => Throw e
  end.

(** ** Catalog data *)

(** [{kind, namespace, name}] as it reaches the component.  The declared
    type of [namespace] is [string]; the option stands for a record that
    arrives without the field, which the [namespace?.] of [EntityRefLink]
    tolerates. *)
Module Ref.
Record t := { kind : string; namespace : option string; name : string }.
End Ref.
Abbreviation CompoundEntityRef := Ref.t.

Record Profile := { email : option string }.

Record Spec := { type : option string; profile : option Profile }.

Module Metadata.
Record t := {
  namespace : option string;
  name : string;
  description : option string;
  tags : option (list string)
}.
End Metadata.

Module Entity.
Record t := { kind : string; metadata : Metadata.t; spec : option Spec }.
End Entity.
Abbreviation Entity := Entity.t.

(** The object literal [{ kind, namespace, name }] built after
    normalisation: route parameters of the link and [entityRef] prop of the
    popover.  All three fields are strings. *)
Module Triple.
Record t := { kind : string; namespace : string; name : string }.
End Triple.
Abbreviation EntityTriple := Triple.t.

(** The [entityRef] prop: [Entity | CompoundEntityRef | string].  The
    constructors are told apart the way the component does it:
    [typeof entityRef === 'string'], then ['metadata' in entityRef]. *)
Inductive EntityRefProp :=
| RefString (s : string)
| RefEntity (e : Entity)
| RefCompound (r : CompoundEntityRef).

(** ** Imported functions

    What the file imports and calls but does not define. *)
Class Imports := {
  (** [String.prototype.toLocaleLowerCase('en-US')] *)
  toLocaleLowerCase : string -> string;
  (** [parseEntityRef] of the catalog model; throws on a malformed string *)
  parseEntityRef : string -> result CompoundEntityRef;
  (** type guards of the catalog model *)
  isUserEntity : Entity -> bool;
  isGroupEntity : Entity -> bool;
  (** [humanizeEntityRef(ref, { defaultKind })] *)
  humanizeEntityRef : EntityTriple -> option string -> string
}.

(** Modelled from the spec: [DEFAULT_NAMESPACE] is imported from the catalog
    model, whose source is not part of this file; the spec gives the
    default-namespace sentinel as "default". *)
Definition DEFAULT_NAMESPACE : string := "default".

(** ** Reference normalisation (EntityRefLink, lines 203-223) *)

(** The three-way branch that fills [kind], [namespace] and [name]. *)
Definition rawFields `{Imports} (entityRef : EntityRefProp)
  : result (string * option string * string) :=
  match entityRef with
  | RefString s =>
      parsed ← parseEntityRef s;
      mret (Ref.kind parsed, Ref.namespace parsed, Ref.name parsed)
  | RefEntity e =>
      mret (Entity.kind e,
            Metadata.namespace (Entity.metadata e),
            Metadata.name (Entity.metadata e))
  | RefCompound r =>
      mret (Ref.kind r, Ref.namespace r, Ref.name r)
  end.

(** [namespace?.toLocaleLowerCase('en-US') ?? DEFAULT_NAMESPACE] *)
Definition lowerNamespace `{Imports} (namespace : option string) : string :=
  default DEFAULT_NAMESPACE (toLocaleLowerCase <$> namespace).

Definition normalize `{Imports} (entityRef : EntityRefProp) : result EntityTriple :=
  '(kind, namespace, name) ← rawFields entityRef;
  mret {| Triple.kind := toLocaleLowerCase kind;
          Triple.namespace := lowerNamespace namespace;
          Triple.name := name |}.

(** ** JSX expression slots *)

(** What the popover renders. *)
Inductive Node :=
| Text (s : string)
| Progress
| Alert (severity : string) (text : string)
| Chip (label : string)
| Tooltip (title : string) (child : Node)
| Button (href : string)          (* the mail button around [EmailIcon] *)
| Link (to : EntityTriple).       (* the details link around [InfoIcon] *)

(** The values a [{...}] slot of the popover can hold. *)
Inductive JsValue :=
| VUndefined
| VBool (b : bool)
| VNum (n : nat)
| VStr (s : string)
| VElem (e : Node).

(** JavaScript truthiness. *)
Definition truthy (v : JsValue) : bool :=
  match v with
  | VUndefined => false
  | VBool b => b
  | VNum n => negb (Nat.eqb n 0)
  | VStr s => negb (bool_decide (s = ""))
  | VElem _ => true
  end.

(** [a && b] on values (the right operand is only used when [a] is truthy). *)
Definition js_and (a b : JsValue) : JsValue := if truthy a then b else a.

(** [v > n]; [undefined > n] is [false]. *)
Definition js_gt (v : JsValue) (n : nat) : JsValue :=
  match v with
  | VNum m => VBool (Nat.ltb n m)
  | _ => VBool false
  end.

(** How React renders the value of a slot: booleans and [undefined] render
    nothing, numbers and strings render as text, elements as themselves. *)
Definition renderChild (v : JsValue) : list Node :=
  match v with
  | VUndefined | VBool _ => []
  | VNum n => [Text (pretty n)]
  | VStr s => [Text s]
  | VElem e => [e]
  end.

(** [o?.length] of an optional array. *)
Definition optLength {A} (o : option (list A)) : JsValue :=
  match o with
  | None => VUndefined
  | Some l => VNum (length l)
  end.

(** ** PeekAheadPopover: rendering (lines 114-187) *)

Definition maxTagChips : nat := 4.

(** The chip in the tooltip shown when there are more tags than chips. *)
Definition overflowChip : Node :=
  Tooltip "Drill into the entity to see all of the tags." (Chip "...").

(** [(entity.metadata.tags || []).slice(0, maxTagChips).map(...)] *)
Definition tagChips (tags : option (list string)) : list Node :=
  Chip <$> take maxTagChips (default [] tags).

(** [entity.metadata.tags?.length &&
     entity.metadata.tags?.length > maxTagChips && (<Tooltip .../>)] *)
Definition overflowGuard (tags : option (list string)) : JsValue :=
  js_and (optLength tags)
         (js_and (js_gt (optLength tags) maxTagChips) (VElem overflowChip)).

(** The children of the [Box] under the entity summary. *)
Definition chipBox (tags : option (list string)) : list Node :=
  tagChips tags ++ renderChild (overflowGuard tags).

(** The [CardContent] below the headline: the entity summary, or four
    skeleton lines while there is no entity. *)
Inductive Body :=
| Summary (kind : string) (description : option string)
          (type : option string) (chips : list Node)
| Skeletons.

Definition body (entity : option Entity) : Body :=
  match entity with
  | Some e =>
      Summary (Entity.kind e)
              (Metadata.description (Entity.metadata e))
              (Entity.spec e ≫= type)
              (chipBox (Metadata.tags (Entity.metadata e)))
  | None => Skeletons
  end.

(** [entity.spec.profile?.email]: reading [profile] off a missing [spec]
    throws a [TypeError]. *)
Definition profileEmail (e : Entity) : result JsValue :=
  match Entity.spec e with
  | None =>
      Throw {| message := "Cannot read properties of undefined (reading 'profile')" |}
  | Some s => mret (from_option VStr VUndefined (profile s ≫= email))
  end.

(** The mail button for address [m]. *)
Definition mailButton (m : string) : Node :=
  Tooltip ("Email " +:+ m) (Button ("mailto:" +:+ m)).

(** [entity && (isUserEntity(entity) || isGroupEntity(entity)) &&
     entity.spec.profile?.email && (<Tooltip ...><Button .../></Tooltip>)] *)
Definition mailGuard `{Imports} (entity : option Entity) : result JsValue :=
  match entity with
  | None => mret VUndefined
  | Some e =>
      if isUserEntity e || isGroupEntity e then
        v ← profileEmail e;
        mret (match v with
              | VStr m => js_and v (VElem (mailButton m))
              | _ => v
              end)
      else mret (VBool false)
  end.

(** State returned by [useAsyncFn]. *)
Record AsyncState := {
  loading : bool;
  error : option Error;
  value : option Entity
}.

Record PopoverView := {
  open : bool;                  (* bindPopover(popupState) *)
  progress : list Node;         (* {loading && <Progress />} *)
  headline : string * string;   (* entityRef.namespace, entityRef.name *)
  alert : list Node;            (* {error && <Alert ...>} *)
  content : Body;
  actions : list Node           (* children of CardActions *)
}.

Definition renderPopover `{Imports} (isOpen : bool) (entityRef : EntityTriple)
    (st : AsyncState) : result PopoverView :=
  mail ← mailGuard (value st);
  mret {| open := isOpen;
          progress := if loading st then [Progress] else [];
          headline := (Triple.namespace entityRef, Triple.name entityRef);
          alert := from_option (fun e => [Alert "warning" (message e)]) [] (error st);
          content := body (value st);
          actions := renderChild mail ++ [Tooltip "Show details" (Link entityRef)] |}.

(** ** PeekAheadPopover: the fetch (lines 96-112) *)

(** How a call of [catalogApi.getEntityByRef] ends: with an entity, with
    nothing, or with a rejection. *)
Inductive Response :=
| Resolves (e : option Entity)
| Rejects (err : Error).

(** The async function handed to [useAsyncFn], stopped where it gives up
    control: at the [await] of the catalog lookup, or at its end when
    [apiHolder.get(catalogApiRef)] gave no client and it returned
    [undefined]. *)
Inductive Suspended :=
| AwaitLookup (entityRef : EntityTriple)
| Returned.

(** What one render of the popover closes over: whether the api holder has
    a catalog client, and the [entityRef] prop. *)
Record RenderEnv := { hasCatalogApi : bool; popoverRef : EntityTriple }.

(** The async function up to its first suspension. *)
Definition loadStart (env : RenderEnv) : Suspended :=
  if hasCatalogApi env then AwaitLookup (popoverRef env) else Returned.

(** The rest of the async function once the awaited lookup has ended. *)
Definition loadResume (c : Suspended) (r : Response) : result (option Entity) :=
  match c with
  | Returned => mret None
  | AwaitLookup entityRef =>
      match r with
      | Rejects err => Throw err
      | Resolves None =>
          Throw {| message := Triple.name entityRef +:+ " was not found" |}
      | Resolves (Some retrievedEntity) => mret (Some retrievedEntity)
      end
  end.

(** The [getEntityByRef] call issued by starting the function, if any. *)
Definition lookupOf (c : Suspended) : list EntityTriple :=
  match c with
  | AwaitLookup entityRef => [entityRef]
  | Returned => []
  end.

(** One mounted [EntityRefLink] with its popover: the popup state, the
    state and bookkeeping of [useAsyncFn] (react-use: the current
    [AsyncState], the id of the last call, whether the component is still
    mounted), the promises that have not settled yet, and a log of the
    catalog lookups issued so far. *)
Record Component := {
  isOpen : bool;
  state : AsyncState;
  lastCallId : nat;
  mounted : bool;
  promises : gmap nat Suspended;
  lookups : list EntityTriple
}.

Definition initial : Component :=
  {| isOpen := false;
     state := {| loading := false; error := None; value := None |};
     lastCallId := 0;
     mounted := true;
     promises := ∅;
     lookups := [] |}.

(** [popupState.isOpen && !entity && !error && !loading] *)
Definition guard (c : Component) : bool :=
  isOpen c && negb (bool_decide (is_Some (value (state c))))
           && negb (bool_decide (is_Some (error (state c))))
           && negb (loading (state c)).

(** The function returned by [useAsyncFn]: take the next call id, set
    [loading], start the async function and keep its promise. *)
Definition load (env : RenderEnv) (c : Component) : Component :=
  let callId := S (lastCallId c) in
  let started := loadStart env in
  {| isOpen := isOpen c;
     state := {| loading := true;
                 error := error (state c);
                 value := value (state c) |};
     lastCallId := callId;
     mounted := mounted c;
     promises := <[callId := started]> (promises c);
     lookups := lookups c ++ lookupOf started |}.

(** The body of [useEffect]. *)
Definition effect (env : RenderEnv) (c : Component) : Component :=
  if guard c then load env c else c.

(** The state stored when a promise settles: [{ value, loading: false }] on
    fulfilment, [{ error, loading: false }] on rejection. *)
Definition settled (r : result (option Entity)) : AsyncState :=
  match r with
  | Ok v => {| loading := false; error := None; value := v |}
  | Throw e => {| loading := false; error := Some e; value := None |}
  end.

(** The [then] callbacks of [useAsyncFn]: the state is replaced only when
    the component is mounted and the call is the latest one. *)
Definition settle (callId : nat) (r : Response) (c : Component) : Component :=
  match promises c !! callId with
  | None => c
  | Some call =>
      {| isOpen := isOpen c;
         state := if mounted c && Nat.eqb callId (lastCallId c)
                  then settled (loadResume call r)
                  else state c;
         lastCallId := lastCallId c;
         mounted := mounted c;
         promises := delete callId (promises c);
         lookups := lookups c |}
  end.

Inductive Event :=
| Hover (opened : bool)                  (* the popup opens or closes *)
| Render (env : RenderEnv)               (* a render and its effect *)
| Settle (callId : nat) (r : Response)   (* the promise of a call settles;
                                            [r] is the catalog's answer when
                                            the call awaits one *)
| Unmount.

Definition step (c : Component) (ev : Event) : Component :=
  match ev with
  | Hover opened =>
      if mounted c then
        {| isOpen := opened; state := state c; lastCallId := lastCallId c;
           mounted := mounted c; promises := promises c; lookups := lookups c |}
      else c
  | Render env => if mounted c then effect env c else c
  | Settle callId r => settle callId r c
  | Unmount =>
      {| isOpen := isOpen c; state := state c; lastCallId := lastCallId c;
         mounted := false; promises := promises c; lookups := lookups c |}
  end.

Definition run (c : Component) (evs : list Event) : Component :=
  foldl step c evs.

(** ** EntityRefLink: rendering (lines 194-249) *)

Record EntityRefLinkProps := {
  entityRef : EntityRefProp;
  defaultKind : option string;
  title : option string;
  children : option (list Node)
}.

Record LinkView := {
  to : EntityTriple;          (* entityRoute(routeParams) *)
  linkText : list Node;       (* {children}{!children && (title ?? ...)} *)
  popover : PopoverView
}.

Definition EntityRefLink `{Imports} (props : EntityRefLinkProps) (c : Component)
  : result LinkView :=
  ref ← normalize (entityRef props);
  pop ← renderPopover (isOpen c) ref (state c);
  mret {| to := ref;
          linkText :=
            match children props with
            | Some nodes => nodes
            | None => [Text (default (humanizeEntityRef ref (defaultKind props))
                                     (title props))]
            end;
          popover := pop |}.

(** ** A concrete catalog model

    An instance of the imports, used to run the component on concrete
    inputs. *)

(** [toLocaleLowerCase('en-US')] on the ASCII range, where it maps [A]-[Z]
    to [a]-[z] and nothing else; characters outside that range are left as
    they are. *)
Definition lowerAscii (a : ascii) : ascii :=
  let n := nat_of_ascii a in
  if Nat.leb 65 n && Nat.leb n 90 then ascii_of_nat (n + 32) else a.

Fixpoint asciiLowerCase (s : string) : string :=
  match s with
  | EmptyString => EmptyString
  | String a rest => String (lowerAscii a) (asciiLowerCase rest)
  end.

(** [s] cut at the first occurrence of [c]. *)
Fixpoint splitAt (c : ascii) (s : string) : option (string * string) :=
  match s with
  | EmptyString => None
  | String a rest =>
      if bool_decide (a = c) then Some (EmptyString, rest)
      else '(l, r) ← splitAt c rest; Some (String a l, r)
  end.

(** Whether [c] occurs in [s]. *)
Fixpoint occurs (c : ascii) (s : string) : bool :=
  match s with
  | EmptyString => false
  | String a rest => bool_decide (a = c) || occurs c rest
  end.

Module CatalogModel.

Definition parseError (ref : string) : Error :=
  {| message := "Entity reference " +:+ ref +:+ " is malformed" |}.

(** Modelled from the spec: [parseEntityRef] belongs to the catalog model
    package, whose source is not part of this file.  The spec describes it
    as a reference-grammar parser that takes a string [k:ns/name] to
    [{kind, namespace, name}] and fails with a parse error on a malformed
    string, and it speaks of references whose namespace is omitted.  Here
    the string is cut at its first [:] and the rest at its first [/]; when
    there is no [/] the namespace is omitted; a missing kind or an empty
    part is malformed. *)
Definition parseEntityRef (ref : string) : result CompoundEntityRef :=
  match splitAt ":" ref with
  | None => Throw (parseError ref)
  | Some (kind, rest) =>
      let '(namespace, name) :=
        match splitAt "/" rest with
        | None => (None, rest)
        | Some (namespace, name) => (Some namespace, name)
        end in
      if bool_decide (kind = "") || bool_decide (namespace = Some "")
         || bool_decide (name = "")
      then Throw (parseError ref)
      else Ok {| Ref.kind := kind;
                 Ref.namespace := namespace;
                 Ref.name := name |}
  end.

(** Modelled from the spec: [isUserEntity] is a predicate of the catalog
    model package; the spec says it classifies the entity's kind as a
    person, and names the kind "user".  Kinds are compared without regard
    to case, as everywhere in this file. *)
Definition isUserEntity (lower : string -> string) (e : Entity) : bool :=
  bool_decide (lower (Entity.kind e) = "user").

(** Modelled from the spec: [isGroupEntity], the same for the kind
    "group". *)
Definition isGroupEntity (lower : string -> string) (e : Entity) : bool :=
  bool_decide (lower (Entity.kind e) = "group").

(** Modelled from the spec: [humanizeEntityRef] lives in [./humanize]; the
    spec says only that it produces a human-readable label from the triple
    and an optional default kind.  The label used here is the full
    reference [kind:namespace/name]. *)
Definition humanizeEntityRef (ref : EntityTriple) (defaultKind : option string)
  : string :=
  Triple.kind ref +:+ ":" +:+ Triple.namespace ref +:+ "/" +:+ Triple.name ref.

End CatalogModel.

(** The imports for a given lower-casing function. *)
Definition catalogModel (lower : string -> string) : Imports :=
  {| toLocaleLowerCase := lower;
     parseEntityRef := CatalogModel.parseEntityRef;
     isUserEntity := CatalogModel.isUserEntity lower;
     isGroupEntity := CatalogModel.isGroupEntity lower;
     humanizeEntityRef := CatalogModel.humanizeEntityRef |}.

(** The imports with ASCII lower-casing. *)
Definition asciiModel : Imports := catalogModel asciiLowerCase.

(** [k:ns/name] as a string. *)
Definition refString (k ns name : string) : string :=
  k +:+ ":" +:+ ns +:+ "/" +:+ name.

(** The parts of a well-formed reference string [k:ns/name]: none is
    empty, the kind holds no separator and the namespace no [/]. *)
Definition wellFormed (k ns name : string) : Prop :=
  k <> "" /\ ns <> "" /\ name <> ""
  /\ occurs ":" k = false /\ occurs "/" k = false /\ occurs "/" ns = false.

(** The mail addresses targeted by the mail buttons among some nodes. *)
Definition mailHref (n : Node) : option string :=
  match n with
  | Tooltip _ (Button href) => Some href
  | _ => None
  end.

Definition mailTargets (nodes : list Node) : list string := omap mailHref nodes.

(** The number of plain chips among some nodes. *)
Definition isChip (n : Node) : bool :=
  match n with
  | Chip _ => true
  | _ => false
  end.

Definition chipCount (nodes : list Node) : nat := length (List.filter isChip nodes).

(** The children of the chip box in a rendered body. *)
Definition chipsOf (b : Body) : list Node :=
  match b with
  | Summary _ _ _ chips => chips
  | Skeletons => []
  end.

(** Some sample data. *)
Definition sampleRef : EntityTriple :=
  {| Triple.kind := "component"; Triple.namespace := "default";
     Triple.name := "missing" |}.

Definition sampleEnv : RenderEnv :=
  {| hasCatalogApi := true; popoverRef := sampleRef |}.

Definition noApiEnv : RenderEnv :=
  {| hasCatalogApi := false; popoverRef := sampleRef |}.

Definition sampleEntity (kind : string) (tags : option (list string))
    (mail : option string) : Entity :=
  {| Entity.kind := kind;
     Entity.metadata := {| Metadata.namespace := None;
                           Metadata.name := "sample";
                           Metadata.description := None;
                           Metadata.tags := tags |};
     Entity.spec := Some {| type := None;
                            profile := Some {| email := mail |} |} |}.

(** The entity's [spec.profile.email], when every step of the path is
    there. *)
Definition contactEmail (e : Entity) : option string :=
  (Entity.spec e ≫= profile) ≫= email.

(** The state after a successful fetch of [e]. *)
Definition loaded (e : Entity) : AsyncState :=
  {| loading := false; error := None; value := Some e |}.

(** ** Notions used in the statements *)

(** A result is cached: an entity or an error is stored. *)
Definition cached (c : Component) : Prop :=
  is_Some (value (state c)) \/ is_Some (error (state c)).

(** What holds of every component reached from [initial]. *)
Record consistent (c : Component) : Prop := {
  (* only the latest call can be in flight, and then [loading] is set *)
  inflight_latest : forall callId call,
    promises c !! callId = Some call ->
    callId = lastCallId c /\ loading (state c) = true;
  (* while mounted, [loading] means that the latest call is in flight *)
  loading_inflight :
    mounted c = true -> loading (state c) = true ->
    is_Some (promises c !! lastCallId c);
  (* a lookup was issued at most once; if so, its result is cached or is
     still awaited *)
  lookups_once :
    lookups c = []
    \/ (length (lookups c) = 1
        /\ (cached c
            \/ (loading (state c) = true
                /\ forall callId call,
                     promises c !! callId = Some call ->
                     exists entityRef, call = AwaitLookup entityRef)));
  (* a cached result ends the loading *)
  cached_idle : cached c -> loading (state c) = false
}.

(** [rounds env from n]: [n] times a render that runs the effect, a render
    while the call is in flight, and the settling of that call; call ids
    start after [from]. *)
Fixpoint rounds (env : RenderEnv) (from n : nat) : list Event :=
  match n with
  | 0 => []
  | S n' =>
      Render env :: Render env :: Settle (S from) (Resolves None)
        :: rounds env (S from) n'
  end.

(** A normalised triple handed back as a compound reference. *)
Definition tripleRef (t : EntityTriple) : CompoundEntityRef :=
  {| Ref.kind := Triple.kind t;
     Ref.namespace := Some (Triple.namespace t);
     Ref.name := Triple.name t |}.

(** * Properties *)

(** ** Reference normalisation *)

Section Normalisation.
Context `{Imports}.

Lemma normalize_fields (entityRef : EntityRefProp) kind namespace name :
  rawFields entityRef = Ok (kind, namespace, name) ->
  normalize entityRef =
    Ok {| Triple.kind := toLocaleLowerCase kind;
          Triple.namespace := lowerNamespace namespace;
          Triple.name := name |}.
Proof. intros Hraw. unfold normalize. rewrite Hraw. reflexivity. Qed.

Lemma lowerNamespace_some (ns : string) :
  lowerNamespace (Some ns) = toLocaleLowerCase ns.
Proof. reflexivity. Qed.

Lemma lowerNamespace_none : lowerNamespace None = DEFAULT_NAMESPACE.
Proof. reflexivity. Qed.

Lemma normalize_string (s : string) (parsed : CompoundEntityRef) :
  parseEntityRef s = Ok parsed ->
  normalize (RefString s) =
    Ok {| Triple.kind := toLocaleLowerCase (Ref.kind parsed);
          Triple.namespace := lowerNamespace (Ref.namespace parsed);
          Triple.name := Ref.name parsed |}.
Proof.
  intros Hparse. apply normalize_fields. cbn. rewrite Hparse. reflexivity.
Qed.

Lemma normalize_string_throws (s : string) (e : Error) :
  parseEntityRef s = Throw e -> normalize (RefString s) = Throw e.
Proof. intros Hparse. unfold normalize. cbn. rewrite Hparse. reflexivity. Qed.

(** C2, as amended: an input whose namespace is omitted (the three-way
    branch leaves [namespace] undefined) is normalised to the namespace
    "default"; a namespace that is there, the empty string included, is
    only lower-cased. *)
Theorem omitted_namespace_defaults (entityRef : EntityRefProp)
    (kind : string) (namespace : option string) (name : string) :
  rawFields entityRef = Ok (kind, namespace, name) ->
  normalize entityRef =
    Ok {| Triple.kind := toLocaleLowerCase kind;
          Triple.namespace := match namespace with
                              | None => "default"
                              | Some ns => toLocaleLowerCase ns
                              end;
          Triple.name := name |}.
Proof.
  intros Hraw. rewrite (normalize_fields _ _ _ _ Hraw).
  destruct namespace; reflexivity.
Qed.

(** C4: a full entity record and the compound reference with the same
    kind, namespace and name are normalised to the same triple. *)
Theorem entity_and_compound_agree
    (kind : string) (namespace : option string) (name : string)
    (description : option string) (tags : option (list string))
    (spec : option Spec) :
  normalize (RefEntity {| Entity.kind := kind;
                          Entity.metadata :=
                            {| Metadata.namespace := namespace;
                               Metadata.name := name;
                               Metadata.description := description;
                               Metadata.tags := tags |};
                          Entity.spec := spec |})
  = normalize (RefCompound {| Ref.kind := kind;
                              Ref.namespace := namespace;
                              Ref.name := name |}).
Proof. reflexivity. Qed.

End Normalisation.

(** C2 fails as stated: an empty-string namespace is not replaced.  For the
    compound reference [{kind: "Component", namespace: "", name: "x"}] the
    normalised namespace is the empty string, not "default". *)
Lemma empty_namespace_not_defaulted :
  exists t,
    @normalize asciiModel
      (RefCompound {| Ref.kind := "Component"; Ref.namespace := Some "";
                      Ref.name := "x" |}) = Ok t
    /\ Triple.namespace t = ""
    /\ Triple.namespace t <> "default".
Proof. eexists. split; [reflexivity|]. split; [reflexivity|discriminate]. Qed.

Lemma omitted_namespace_defaults_witness :
  @rawFields asciiModel (RefEntity (sampleEntity "Component" None None))
    = Ok ("Component", None, "sample")
  /\ @normalize asciiModel (RefEntity (sampleEntity "Component" None None))
     = Ok {| Triple.kind := "component"; Triple.namespace := "default";
             Triple.name := "sample" |}.
Proof.
  split; [reflexivity|].
  apply (@omitted_namespace_defaults asciiModel
           (RefEntity (sampleEntity "Component" None None))
           "Component" None "sample").
  reflexivity.
Defined.

(** *** The modelled parser on well-formed strings *)

Lemma append_cons (a : ascii) (s t : string) :
  String a s +:+ t = String a (s +:+ t).
Proof. reflexivity. Qed.

Lemma append_empty (t : string) : "" +:+ t = t.
Proof. reflexivity. Qed.

Lemma splitAt_first (c : ascii) (l r : string) :
  occurs c l = false -> splitAt c (l +:+ String c r) = Some (l, r).
Proof.
  induction l as [|a l IH]; intros Hocc.
  - rewrite append_empty. cbn. rewrite bool_decide_eq_true_2; done.
  - cbn in Hocc. apply orb_false_iff in Hocc as [Ha Hl].
    rewrite append_cons. cbn. rewrite Ha, (IH Hl). reflexivity.
Qed.

Lemma parse_well_formed (k ns name : string) :
  wellFormed k ns name ->
  CatalogModel.parseEntityRef (refString k ns name)
  = Ok {| Ref.kind := k; Ref.namespace := Some ns; Ref.name := name |}.
Proof.
  intros (Hk & Hns & Hname & Hck & _ & Hcns).
  unfold CatalogModel.parseEntityRef, refString.
  change (":" +:+ ns +:+ "/" +:+ name) with (String ":" (ns +:+ "/" +:+ name)).
  rewrite (splitAt_first _ _ _ Hck).
  change ("/" +:+ name) with (String "/" name).
  rewrite (splitAt_first _ _ _ Hcns).
  rewrite !bool_decide_eq_false_2 by congruence. reflexivity.
Qed.

(** C3: for a well-formed reference string [k:ns/name] normalisation
    yields the lower-cased kind, the lower-cased namespace and the name as
    it is written. *)
Theorem normalize_well_formed_string
    (lower : string -> string) (k ns name : string) :
  wellFormed k ns name ->
  @normalize (catalogModel lower) (RefString (refString k ns name))
  = Ok {| Triple.kind := lower k;
          Triple.namespace := lower ns;
          Triple.name := name |}.
Proof.
  intros Hwf.
  rewrite (@normalize_string (catalogModel lower) _ _
             (parse_well_formed k ns name Hwf)).
  reflexivity.
Qed.

Lemma normalize_well_formed_string_witness :
  wellFormed "Component" "Default" "MyName"
  /\ @normalize asciiModel (RefString "Component:Default/MyName")
     = Ok {| Triple.kind := "component"; Triple.namespace := "default";
             Triple.name := "MyName" |}.
Proof.
  assert (wellFormed "Component" "Default" "MyName") as Hwf
    by (repeat split; first [discriminate | reflexivity]).
  split; [exact Hwf|].
  exact (normalize_well_formed_string asciiLowerCase
           "Component" "Default" "MyName" Hwf).
Defined.

(** ** Rendering of the popover *)

Lemma chips_of_tags_count (l : list string) :
  chipCount (Chip <$> l) = length l.
Proof.
  unfold chipCount. induction l as [|t l IH]; [reflexivity|].
  cbn. f_equal. exact IH.
Qed.

Lemma chipCount_app (xs ys : list Node) :
  chipCount (xs ++ ys) = chipCount xs + chipCount ys.
Proof. unfold chipCount. rewrite List.filter_app, length_app. reflexivity. Qed.

Lemma overflow_not_tag_chip (l : list string) : overflowChip ∉ Chip <$> l.
Proof.
  intros Hin. apply list_elem_of_fmap in Hin as (t & Heq & _). discriminate.
Qed.

(** The children of the chip box, case by case on the number of tags. *)
Lemma chipBox_some (tags : list string) :
  chipBox (Some tags) =
    (Chip <$> take maxTagChips tags)
    ++ (if decide (length tags = 0) then [Text "0"]
        else if decide (maxTagChips < length tags) then [overflowChip]
        else []).
Proof.
  unfold chipBox, tagChips, overflowGuard, js_and, js_gt, optLength.
  cbn [default truthy]. f_equal.
  destruct (decide (length tags = 0)) as [Hz|Hnz].
  - rewrite Hz. reflexivity.
  - destruct (Nat.eqb_spec (length tags) 0) as [|_]; [done|]. cbn [negb].
    destruct (decide (maxTagChips < length tags)) as [Hlt|Hge].
    + apply Nat.ltb_lt in Hlt. rewrite Hlt. reflexivity.
    + apply Nat.ltb_nlt in Hge. rewrite Hge. reflexivity.
Qed.

Lemma chipsOf_loaded (e : Entity) :
  chipsOf (body (Some e)) = chipBox (Metadata.tags (Entity.metadata e)).
Proof. reflexivity. Qed.

(** C7: for a loaded entity with [n] tags the chip box holds [min n 4] tag
    chips, those of the first tags, and the overflow chip (with its
    tooltip) exactly when [n > 4]; six tags give four tag chips and the
    overflow chip, three tags give three tag chips and nothing else. *)
Theorem tag_chips_capped (e : Entity) (tags : list string) :
  Metadata.tags (Entity.metadata e) = Some tags ->
  let chips := chipsOf (body (Some e)) in
  chipCount chips = length tags `min` 4
  /\ take (length tags `min` 4) chips = Chip <$> take 4 tags
  /\ (overflowChip ∈ chips <-> 4 < length tags)
  /\ (length tags = 6 -> chips = (Chip <$> take 4 tags) ++ [overflowChip])
  /\ (length tags = 3 -> chips = Chip <$> tags).
Proof.
  intros Htags chips. subst chips. rewrite chipsOf_loaded, Htags.
  split.
  { rewrite chipBox_some, chipCount_app, chips_of_tags_count, length_take.
    unfold maxTagChips.
    assert (chipCount (if decide (length tags = 0) then [Text "0"]
                       else if decide (4 < length tags) then [overflowChip]
                       else []) = 0) as ->
      by (repeat case_decide; reflexivity).
    lia. }
  split.
  { rewrite chipBox_some. unfold maxTagChips.
    rewrite take_app_length'; [reflexivity|].
    rewrite length_fmap, length_take. lia. }
  rewrite chipBox_some. unfold maxTagChips.
  destruct (decide (length tags = 0)) as [Hz|Hnz];
    [|destruct (decide (4 < length tags)) as [Hlt|Hge]].
  - repeat split.
    + intros Hin. apply elem_of_app in Hin as [Hin|Hin].
      * destruct (overflow_not_tag_chip _ Hin).
      * apply list_elem_of_singleton in Hin. discriminate.
    + lia.
    + lia.
    + lia.
  - repeat split.
    + done.
    + intros _. apply elem_of_app. right. apply list_elem_of_singleton. done.
    + lia.
  - repeat split.
    + intros Hin. apply elem_of_app in Hin as [Hin|Hin].
      * destruct (overflow_not_tag_chip _ Hin).
      * apply elem_of_nil in Hin. done.
    + lia.
    + lia.
    + intros Hlen. rewrite app_nil_r, take_ge by lia. reflexivity.
Qed.

Lemma tag_chips_capped_witness :
  chipsOf (body (Some (sampleEntity "api" (Some ["a"; "b"; "c"; "d"; "e"; "f"]) None)))
    = [Chip "a"; Chip "b"; Chip "c"; Chip "d"; overflowChip]
  /\ chipsOf (body (Some (sampleEntity "api" (Some ["a"; "b"; "c"]) None)))
     = [Chip "a"; Chip "b"; Chip "c"].
Proof.
  split.
  - apply (proj1 (proj2 (proj2 (proj2
             (tag_chips_capped
                (sampleEntity "api" (Some ["a"; "b"; "c"; "d"; "e"; "f"]) None)
                ["a"; "b"; "c"; "d"; "e"; "f"] eq_refl))))).
    reflexivity.
  - apply (proj2 (proj2 (proj2 (proj2
             (tag_chips_capped
                (sampleEntity "api" (Some ["a"; "b"; "c"]) None)
                ["a"; "b"; "c"] eq_refl))))).
    reflexivity.
Defined.

(** C9: for a loaded entity whose tag list is there but empty, the overflow
    guard has the value [0], and the chip box of the summary holds the text
    "0" and no chip. *)
Theorem empty_tags_render_zero (e : Entity) :
  Metadata.tags (Entity.metadata e) = Some [] ->
  overflowGuard (Metadata.tags (Entity.metadata e)) = VNum 0
  /\ chipsOf (body (Some e)) = [Text "0"]
  /\ chipCount (chipsOf (body (Some e))) = 0.
Proof.
  intros Htags. rewrite chipsOf_loaded, Htags. repeat split.
Qed.

Lemma empty_tags_render_zero_witness :
  Metadata.tags (Entity.metadata (sampleEntity "component" (Some []) None)) = Some []
  /\ chipsOf (body (Some (sampleEntity "component" (Some []) None))) = [Text "0"].
Proof.
  split; [reflexivity|].
  apply (empty_tags_render_zero (sampleEntity "component" (Some []) None)).
  reflexivity.
Defined.

(** *** The mail action *)

Section MailAction.
Context `{Imports}.


Lemma mailTargets_actions (v : JsValue) (ref : EntityTriple) :
  mailTargets (renderChild v ++ [Tooltip "Show details" (Link ref)])
  = match v with
    | VElem n => from_option (fun h => [h]) [] (mailHref n)
    | _ => []
    end.
Proof.
  destruct v as [| b | n | s | n]; reflexivity.
Qed.

(** The value of the mail slot for a loaded entity, case by case. *)
Lemma mailGuard_loaded (e : Entity) :
  mailGuard (Some e) =
    if isUserEntity e || isGroupEntity e then
      match Entity.spec e with
      | None => profileEmail e
      | Some _ =>
          match contactEmail e with
          | None => Ok VUndefined
          | Some m => if decide (m = "") then Ok (VStr "")
                      else Ok (VElem (mailButton m))
          end
      end
    else Ok (VBool false).
Proof.
  unfold mailGuard, contactEmail, profileEmail.
  destruct (isUserEntity e || isGroupEntity e); [|reflexivity].
  destruct (Entity.spec e) as [s|]; [|reflexivity]. cbn.
  destruct (profile s) as [p|]; [|reflexivity]. cbn.
  destruct (email p) as [m|]; [|reflexivity]. cbn.
  unfold js_and, truthy. destruct (decide (m = "")) as [->|Hm]; [reflexivity|].
  rewrite bool_decide_eq_false_2 by done. reflexivity.
Qed.

Lemma renderPopover_actions (isOpen : bool) (ref : EntityTriple)
    (st : AsyncState) (view : PopoverView) :
  renderPopover isOpen ref st = Ok view ->
  exists v, mailGuard (value st) = Ok v
            /\ actions view = renderChild v ++ [Tooltip "Show details" (Link ref)].
Proof.
  unfold renderPopover. destruct (mailGuard (value st)) as [v|err]; cbn.
  - intros [= <-]. exists v. split; reflexivity.
  - discriminate.
Qed.

Lemma renderPopover_ok (isOpen : bool) (ref : EntityTriple)
    (st : AsyncState) (v : JsValue) :
  mailGuard (value st) = Ok v ->
  exists view, renderPopover isOpen ref st = Ok view
               /\ actions view = renderChild v ++ [Tooltip "Show details" (Link ref)].
Proof.
  intros Hv. unfold renderPopover. rewrite Hv. cbn. eexists. split; reflexivity.
Qed.

(** C6: for a loaded entity the action row offers a mail action to
    [mailto:<email>] exactly when the entity is a user or a group and its
    [spec.profile.email] is there (a non-empty string); an entity that is
    neither never gets a mail action, whatever its profile says. *)
Theorem mail_action_iff (isOpen : bool) (ref : EntityTriple) (st : AsyncState)
    (e : Entity) (href : string) :
  value st = Some e ->
  ((exists view, renderPopover isOpen ref st = Ok view
                 /\ href ∈ mailTargets (actions view))
   <-> (isUserEntity e || isGroupEntity e = true
        /\ exists m, contactEmail e = Some m /\ m <> ""
                     /\ href = "mailto:" +:+ m))
  /\ (isUserEntity e || isGroupEntity e = false ->
      exists view, renderPopover isOpen ref st = Ok view
                   /\ mailTargets (actions view) = []).
Proof.
  intros Hloaded. split; [split|].
  - intros (view & Hview & Hin).
    apply renderPopover_actions in Hview as (v & Hv & Hact).
    rewrite Hact, mailTargets_actions in Hin.
    rewrite Hloaded, mailGuard_loaded in Hv.
    destruct (isUserEntity e || isGroupEntity e).
    + split; [reflexivity|].
      destruct (Entity.spec e) as [s|] eqn:Hspec.
      * destruct (contactEmail e) as [m|].
        -- destruct (decide (m = "")) as [->|Hm]; injection Hv as <-.
           ++ apply elem_of_nil in Hin. done.
           ++ cbn in Hin. apply list_elem_of_singleton in Hin.
              exists m. done.
        -- injection Hv as <-. apply elem_of_nil in Hin. done.
      * unfold profileEmail in Hv. rewrite Hspec in Hv. discriminate.
    + injection Hv as <-. apply elem_of_nil in Hin. done.
  - intros (Hcls & m & Hmail & Hm & ->).
    assert (mailGuard (value st) = Ok (VElem (mailButton m))) as Hv.
    { rewrite Hloaded, mailGuard_loaded, Hcls.
      destruct (Entity.spec e) as [s|] eqn:Hspec.
      - rewrite Hmail. destruct (decide (m = "")); done.
      - unfold contactEmail in Hmail. rewrite Hspec in Hmail. discriminate. }
    destruct (renderPopover_ok isOpen ref st _ Hv) as (view & Hview & Hact).
    exists view. split; [exact Hview|].
    rewrite Hact, mailTargets_actions. cbn. apply list_elem_of_singleton. done.
  - intros Hcls.
    assert (mailGuard (value st) = Ok (VBool false)) as Hv.
    { rewrite Hloaded, mailGuard_loaded, Hcls. reflexivity. }
    destruct (renderPopover_ok isOpen ref st _ Hv) as (view & Hview & Hact).
    exists view. split; [exact Hview|].
    rewrite Hact, mailTargets_actions. reflexivity.
Qed.

End MailAction.


Lemma mail_action_iff_witness :
  (exists view,
     @renderPopover asciiModel true sampleRef
       (loaded (sampleEntity "user" None (Some "a@b.com"))) = Ok view
     /\ "mailto:a@b.com" ∈ mailTargets (actions view))
  /\ (exists view,
        @renderPopover asciiModel true sampleRef
          (loaded (sampleEntity "resource" None (Some "a@b.com"))) = Ok view
        /\ mailTargets (actions view) = []).
Proof.
  split.
  - apply (proj1 (@mail_action_iff asciiModel true sampleRef
                    (loaded (sampleEntity "user" None (Some "a@b.com")))
                    (sampleEntity "user" None (Some "a@b.com"))
                    "mailto:a@b.com" eq_refl)).
    split; [reflexivity|]. exists "a@b.com". done.
  - apply (proj2 (@mail_action_iff asciiModel true sampleRef
                    (loaded (sampleEntity "resource" None (Some "a@b.com")))
                    (sampleEntity "resource" None (Some "a@b.com"))
                    "" eq_refl)).
    reflexivity.
Defined.

(** ** The fetch on hover *)




Lemma guard_true (c : Component) :
  guard c = true <->
  isOpen c = true /\ value (state c) = None /\ error (state c) = None
  /\ loading (state c) = false.
Proof.
  unfold guard. rewrite !andb_true_iff, !negb_true_iff, !bool_decide_eq_false.
  rewrite <- !eq_None_not_Some. tauto.
Qed.

Lemma guard_not_cached (c : Component) : guard c = true -> ~ cached c.
Proof.
  intros (_ & Hv & He & _)%guard_true [Hc|Hc];
    [rewrite Hv in Hc | rewrite He in Hc]; by apply is_Some_None in Hc.
Qed.

Lemma cached_guard (c : Component) : cached c -> guard c = false.
Proof.
  intros Hc. destruct (guard c) eqn:Hg; [|reflexivity].
  destruct (guard_not_cached c Hg Hc).
Qed.

Lemma idle_no_promises (c : Component) :
  consistent c -> loading (state c) = false -> promises c = ∅.
Proof.
  intros Hc Hidle. apply map_empty. intros callId.
  destruct (promises c !! callId) as [call|] eqn:Hp; [|reflexivity].
  destruct (inflight_latest c Hc _ _ Hp) as [_ Hl]. congruence.
Qed.

Lemma load_changes (env : RenderEnv) (c : Component) : load env c <> c.
Proof.
  intros Heq. apply (f_equal lastCallId) in Heq. cbn in Heq. lia.
Qed.

Lemma settled_resume_lookup (entityRef : EntityTriple) (r : Response) :
  is_Some (value (settled (loadResume (AwaitLookup entityRef) r)))
  \/ is_Some (error (settled (loadResume (AwaitLookup entityRef) r))).
Proof.
  destruct r as [[e|]|err]; cbn; eauto.
Qed.

Lemma settled_idle (r : result (option Entity)) : loading (settled r) = false.
Proof. destruct r; reflexivity. Qed.

Lemma consistent_initial : consistent initial.
Proof.
  split; cbn.
  - intros callId call Hp. rewrite lookup_empty in Hp. discriminate.
  - discriminate.
  - left. reflexivity.
  - reflexivity.
Qed.

Lemma consistent_load (env : RenderEnv) (c : Component) :
  consistent c -> guard c = true -> consistent (load env c).
Proof.
  intros Hc Hg. pose proof (guard_not_cached c Hg) as Hnc.
  apply guard_true in Hg as (_ & Hv & He & Hl).
  pose proof (idle_no_promises c Hc Hl) as Hempty.
  split; cbn.
  - intros callId call Hp. rewrite Hempty in Hp.
    apply lookup_insert_Some in Hp as [[<- _]|[_ Hp]]; [done|].
    rewrite lookup_empty in Hp. discriminate.
  - intros _ _. rewrite lookup_insert_eq. eauto.
  - destruct (lookups_once c Hc) as [Hnil|(_ & [Hcached|[Hload _]])].
    + rewrite Hnil. cbn. unfold loadStart.
      destruct (hasCatalogApi env); cbn; [right|left; reflexivity].
      split; [reflexivity|]. right. split; [reflexivity|].
      intros callId call Hp. rewrite Hempty in Hp.
      apply lookup_insert_Some in Hp as [[_ <-]|[_ Hp]]; [eauto|].
      rewrite lookup_empty in Hp. discriminate.
    + destruct (Hnc Hcached).
    + congruence.
  - intros [Hc'|Hc']; cbn in Hc'; destruct Hnc; [left|right]; assumption.
Qed.

Lemma consistent_settle (callId : nat) (r : Response) (c : Component) :
  consistent c -> consistent (settle callId r c).
Proof.
  intros Hc. unfold settle.
  destruct (promises c !! callId) as [call|] eqn:Hp; [|exact Hc].
  destruct (inflight_latest c Hc _ _ Hp) as [-> Hl].
  rewrite Nat.eqb_refl, andb_true_r.
  destruct (mounted c) eqn:Hm; split; cbn.
  - intros callId call' Hp'. apply lookup_delete_Some in Hp' as [Hne Hp'].
    destruct (inflight_latest c Hc _ _ Hp') as [-> _]. done.
  - rewrite settled_idle. discriminate.
  - destruct (lookups_once c Hc) as [Hnil|(Hlen & [Hcached|[_ Hall]])].
    + left. exact Hnil.
    + rewrite (cached_idle c Hc Hcached) in Hl. discriminate.
    + right. split; [exact Hlen|]. left.
      destruct (Hall _ _ Hp) as [entityRef ->].
      exact (settled_resume_lookup entityRef r).
  - intros _. apply settled_idle.
  - intros callId call' Hp'. apply lookup_delete_Some in Hp' as [_ Hp'].
    exact (inflight_latest c Hc _ _ Hp').
  - discriminate.
  - destruct (lookups_once c Hc) as [Hnil|(Hlen & [Hcached|[Hload Hall]])].
    + left. exact Hnil.
    + right. split; [exact Hlen|]. left. exact Hcached.
    + right. split; [exact Hlen|]. right. split; [exact Hload|].
      intros callId call' Hp'. apply lookup_delete_Some in Hp' as [_ Hp'].
      exact (Hall _ _ Hp').
  - exact (cached_idle c Hc).
Qed.

Lemma consistent_step (c : Component) (ev : Event) :
  consistent c -> consistent (step c ev).
Proof.
  intros Hc. destruct ev as [opened|env|callId r|]; cbn.
  - destruct (mounted c) eqn:Hm; [|exact Hc].
    destruct Hc as [H1 H2 H3 H4]. split; cbn; auto.
  - destruct (mounted c); [|exact Hc]. unfold effect.
    destruct (guard c) eqn:Hg; [|exact Hc]. by apply consistent_load.
  - by apply consistent_settle.
  - destruct Hc as [H1 H2 H3 H4]. split; cbn; auto. discriminate.
Qed.

Lemma run_cons (c : Component) (ev : Event) (evs : list Event) :
  run c (ev :: evs) = run (step c ev) evs.
Proof. reflexivity. Qed.

Lemma run_app (c : Component) (evs evs' : list Event) :
  run c (evs ++ evs') = run (run c evs) evs'.
Proof. unfold run. apply foldl_app. Qed.

Lemma consistent_run (c : Component) (evs : list Event) :
  consistent c -> consistent (run c evs).
Proof.
  revert c. induction evs as [|ev evs IH]; intros c Hc; [exact Hc|].
  cbn. apply IH, consistent_step, Hc.
Qed.

(** Once a result is cached no event changes the hook state, the call
    count or the lookups. *)
Lemma cached_step (c : Component) (ev : Event) :
  consistent c -> cached c ->
  state (step c ev) = state c /\ lastCallId (step c ev) = lastCallId c
  /\ lookups (step c ev) = lookups c.
Proof.
  intros Hc Hcached. destruct ev as [opened|env|callId r|]; cbn.
  - destruct (mounted c); done.
  - destruct (mounted c); [|done]. unfold effect.
    rewrite (cached_guard c Hcached). done.
  - unfold settle.
    rewrite (idle_no_promises c Hc (cached_idle c Hc Hcached)), lookup_empty.
    done.
  - done.
Qed.

Lemma cached_run (c : Component) (evs : list Event) :
  consistent c -> cached c ->
  state (run c evs) = state c /\ lastCallId (run c evs) = lastCallId c
  /\ lookups (run c evs) = lookups c.
Proof.
  revert c. induction evs as [|ev evs IH]; intros c Hc Hcached; [done|].
  rewrite run_cons. destruct (cached_step c ev Hc Hcached) as (Hs & Hid & Hl).
  destruct (IH (step c ev)) as (Hs' & Hid' & Hl').
  - by apply consistent_step.
  - unfold cached. rewrite Hs. exact Hcached.
  - rewrite Hs', Hid', Hl'. done.
Qed.

(** C1: over the whole life of a mounted component at most one catalog
    lookup is issued, whatever the sequence of openings, closings, renders
    and responses.  A render dispatches a fetch exactly when the popover is
    open, no entity and no error is stored and no fetch is in flight; and
    once an entity or an error is stored, no later event dispatches a fetch
    or changes what is stored. *)
Theorem at_most_one_lookup (evs : list Event) :
  let c := run initial evs in
  length (lookups c) <= 1
  /\ (forall env, mounted c = true ->
        (step c (Render env) = load env c
         <-> isOpen c = true /\ value (state c) = None
             /\ error (state c) = None /\ promises c = ∅))
  /\ (cached c -> forall evs',
        lastCallId (run c evs') = lastCallId c
        /\ lookups (run c evs') = lookups c
        /\ state (run c evs') = state c).
Proof.
  intros c. assert (consistent c) as Hc by apply consistent_run, consistent_initial.
  split; [|split].
  - destruct (lookups_once c Hc) as [->|[-> _]]; cbn; lia.
  - intros env Hm. cbn. rewrite Hm. unfold effect. split.
    + destruct (guard c) eqn:Hg.
      * apply guard_true in Hg as (Ho & Hv & He & Hl).
        intros _. eauto using idle_no_promises.
      * intros Heq. destruct (load_changes env c). done.
    + intros (Ho & Hv & He & Hp).
      assert (guard c = true) as ->; [|reflexivity].
      apply guard_true. repeat split; try done.
      destruct (loading (state c)) eqn:Hl; [|reflexivity].
      destruct (loading_inflight c Hc Hm Hl) as [call Hcall].
      rewrite Hp, lookup_empty in Hcall. discriminate.
  - intros Hcached evs'.
    destruct (cached_run c evs' Hc Hcached) as (Hs & Hid & Hl). done.
Qed.

Lemma at_most_one_lookup_witness :
  let e := sampleEntity "user" None None in
  let c := run initial [Hover true; Render sampleEnv; Settle 1 (Resolves (Some e))] in
  cached c
  /\ length (lookups c) <= 1
  /\ lookups (run c [Hover false; Hover true; Render sampleEnv]) = lookups c.
Proof.
  intros e c.
  assert (cached c) as Hcached by (left; exists e; reflexivity).
  split; [exact Hcached|].
  destruct (at_most_one_lookup
              [Hover true; Render sampleEnv; Settle 1 (Resolves (Some e))])
    as (Hle & _ & Hstable).
  split; [exact Hle|].
  exact (proj1 (proj2 (Hstable Hcached [Hover false; Hover true; Render sampleEnv]))).
Defined.

Lemma settle_latest (c : Component) (call : Suspended) (r : Response) :
  mounted c = true ->
  promises c !! lastCallId c = Some call ->
  state (step c (Settle (lastCallId c) r)) = settled (loadResume call r).
Proof.
  intros Hm Hp. cbn. unfold settle. rewrite Hp. cbn.
  rewrite Hm, Nat.eqb_refl. reflexivity.
Qed.

(** C5: when the lookup for a reference ends with an empty result, the
    stored state is the failure with the error "<name> was not found",
    [<name>] being the name of the reference; no entity is stored and
    loading is over. *)
Theorem empty_lookup_fails (evs : list Event) (callId : nat)
    (entityRef : EntityTriple) :
  let c := run initial evs in
  mounted c = true ->
  promises c !! callId = Some (AwaitLookup entityRef) ->
  state (step c (Settle callId (Resolves None)))
  = {| loading := false;
       error := Some {| message := Triple.name entityRef +:+ " was not found" |};
       value := None |}.
Proof.
  intros c Hm Hp.
  assert (consistent c) as Hc by apply consistent_run, consistent_initial.
  destruct (inflight_latest c Hc _ _ Hp) as [-> _].
  rewrite (settle_latest c _ _ Hm Hp). reflexivity.
Qed.

Lemma empty_lookup_fails_witness :
  let c := run initial [Hover true; Render sampleEnv] in
  (mounted c = true /\ promises c !! 1 = Some (AwaitLookup sampleRef))
  /\ state (step c (Settle 1 (Resolves None)))
     = {| loading := false;
          error := Some {| message := "missing was not found" |};
          value := None |}.
Proof.
  intros c. split; [split; reflexivity|].
  apply (empty_lookup_fails [Hover true; Render sampleEnv] 1 sampleRef);
    reflexivity.
Defined.

Section ErrorHandling.
Context `{Imports}.

Lemma renderPopover_failed (opened : bool) (entityRef : EntityTriple) (err : Error) :
  renderPopover opened entityRef
    {| loading := false; error := Some err; value := None |}
  = Ok {| open := opened;
          progress := [];
          headline := (Triple.namespace entityRef, Triple.name entityRef);
          alert := [Alert "warning" (message err)];
          content := Skeletons;
          actions := [Tooltip "Show details" (Link entityRef)] |}.
Proof. reflexivity. Qed.

(** C8: an error raised while the lookup is awaited -- a rejection of the
    client or the synthesised not-found error -- is stored as the failed
    state and rendered as a warning with the error's message; the render
    does not throw.  A string reference that the parser rejects makes the
    render of [EntityRefLink] throw that same error. *)
Theorem lookup_errors_caught_parse_errors_thrown :
  (forall (evs : list Event) (callId : nat) (entityRef popRef : EntityTriple)
          (r : Response) (err : Error) (opened : bool),
     let c := run initial evs in
     mounted c = true ->
     promises c !! callId = Some (AwaitLookup entityRef) ->
     loadResume (AwaitLookup entityRef) r = Throw err ->
     let c' := step c (Settle callId r) in
     state c' = {| loading := false; error := Some err; value := None |}
     /\ exists view, renderPopover opened popRef (state c') = Ok view
                     /\ alert view = [Alert "warning" (message err)])
  /\ (forall (props : EntityRefLinkProps) (c : Component) (s : string) (err : Error),
        entityRef props = RefString s ->
        parseEntityRef s = Throw err ->
        EntityRefLink props c = Throw err).
Proof.
  split.
  - intros evs callId entityRef popRef r err opened c Hm Hp Hthrow c'.
    assert (consistent c) as Hc by apply consistent_run, consistent_initial.
    assert (state c' = {| loading := false; error := Some err; value := None |})
      as Hstate.
    { subst c'. destruct (inflight_latest c Hc _ _ Hp) as [-> _].
      rewrite (settle_latest c _ _ Hm Hp), Hthrow. reflexivity. }
    split; [exact Hstate|]. rewrite Hstate, renderPopover_failed.
    eexists. split; reflexivity.
  - intros props c s err Hprop Hparse. unfold EntityRefLink.
    rewrite Hprop, (normalize_string_throws s err Hparse). reflexivity.
Qed.

End ErrorHandling.

Lemma lookup_errors_caught_parse_errors_thrown_witness :
  let c := run initial [Hover true; Render sampleEnv] in
  let timeout := {| message := "Request timed out" |} in
  let props := {| entityRef := RefString "no-kind"; defaultKind := None;
                  title := None; children := None |} in
  state (step c (Settle 1 (Rejects timeout)))
    = {| loading := false; error := Some timeout; value := None |}
  /\ @EntityRefLink asciiModel props initial
     = Throw (CatalogModel.parseError "no-kind").
Proof.
  intros c timeout props.
  destruct (@lookup_errors_caught_parse_errors_thrown asciiModel) as [Hcaught Hthrown].
  split.
  - apply (Hcaught [Hover true; Render sampleEnv] 1 sampleRef sampleRef
             (Rejects timeout) timeout true); reflexivity.
  - apply (Hthrown props initial "no-kind"); reflexivity.
Defined.

(** One round without a catalog client: the effect calls [load], the
    render in between does nothing, and the call settles with
    [undefined]. *)
Lemma round_without_api (c : Component) (env : RenderEnv) :
  mounted c = true -> guard c = true -> hasCatalogApi env = false ->
  let c' := run c (rounds env (lastCallId c) 1) in
  mounted c' = true /\ guard c' = true
  /\ state c' = {| loading := false; error := None; value := None |}
  /\ lastCallId c' = S (lastCallId c) /\ lookups c' = lookups c.
Proof.
  intros Hm Hg Hapi. cbn [rounds]. rewrite !run_cons.
  assert (step c (Render env) = load env c) as ->.
  { cbn. rewrite Hm. unfold effect. rewrite Hg. reflexivity. }
  assert (step (load env c) (Render env) = load env c) as ->.
  { cbn. rewrite Hm. unfold effect, guard. cbn. rewrite !andb_false_r. reflexivity. }
  cbn. unfold settle. cbn. rewrite lookup_insert_eq. cbn.
  rewrite Hm, Nat.eqb_refl. cbn. unfold loadStart. rewrite Hapi. cbn.
  apply guard_true in Hg as (Ho & _).
  repeat split; [|apply app_nil_r]. unfold guard. cbn. rewrite Ho. reflexivity.
Qed.

Lemma rounds_succ (env : RenderEnv) (from n : nat) :
  rounds env from (S n) = rounds env from 1 ++ rounds env (S from) n.
Proof. reflexivity. Qed.

(** C10: without a catalog client a fetch settles with neither an entity
    nor an error, so the guard holds again: every round of render and
    settling ends in a state where the next render calls [load] once more.
    After [n] rounds [load] has been called [n] more times, and no lookup
    was issued. *)
Theorem no_api_redispatch (c : Component) (env : RenderEnv) (n : nat) :
  mounted c = true -> guard c = true -> hasCatalogApi env = false ->
  let c' := run c (rounds env (lastCallId c) n) in
  mounted c' = true
  /\ guard c' = true
  /\ step c' (Render env) = load env c'
  /\ lastCallId c' = lastCallId c + n
  /\ lookups c' = lookups c.
Proof.
  revert c. induction n as [|n IH]; intros c Hm Hg Hapi.
  - cbn. rewrite Hm. unfold effect. rewrite Hg, Nat.add_0_r. done.
  - cbv zeta. rewrite rounds_succ, run_app.
    destruct (round_without_api c env Hm Hg Hapi) as (Hm' & Hg' & _ & Hid & Hl).
    set (c1 := run c (rounds env (lastCallId c) 1)) in *.
    rewrite <- Hid.
    destruct (IH c1 Hm' Hg' Hapi) as (Hm2 & Hg2 & Hs2 & Hid2 & Hl2).
    repeat split; try done.
    + rewrite Hid2, Hid. lia.
    + rewrite Hl2, Hl. reflexivity.
Qed.

Lemma no_api_redispatch_witness :
  let c := run initial [Hover true] in
  (mounted c = true /\ guard c = true /\ hasCatalogApi noApiEnv = false)
  /\ lastCallId (run c (rounds noApiEnv 0 3)) = 3
  /\ lookups (run c (rounds noApiEnv 0 3)) = [].
Proof.
  intros c. split; [repeat split|].
  destruct (no_api_redispatch c noApiEnv 3) as (_ & _ & _ & Hid & Hl);
    try reflexivity.
  split; [exact Hid|exact Hl].
Defined.

(** * Further properties *)

(** ** Normalisation: failure, fixed points, equality *)

Lemma asciiLower_idempotent (a : ascii) : lowerAscii (lowerAscii a) = lowerAscii a.
Proof. destruct a as [[] [] [] [] [] [] [] []]; reflexivity. Qed.

Lemma asciiLowerCase_idempotent (s : string) :
  asciiLowerCase (asciiLowerCase s) = asciiLowerCase s.
Proof.
  induction s as [|a s IH]; [reflexivity|].
  cbn. rewrite asciiLower_idempotent, IH. reflexivity.
Qed.

Section NormalisationMore.
Context `{Imports}.

Lemma normalize_ok_fields (entityRef : EntityRefProp) (t : EntityTriple) :
  normalize entityRef = Ok t ->
  exists kind namespace name,
    rawFields entityRef = Ok (kind, namespace, name)
    /\ t = {| Triple.kind := toLocaleLowerCase kind;
              Triple.namespace := lowerNamespace namespace;
              Triple.name := name |}.
Proof.
  unfold normalize.
  destruct (rawFields entityRef) as [[[kind namespace] name]|err]; cbn.
  - intros [= <-]. exists kind, namespace, name. done.
  - discriminate.
Qed.

Lemma normalize_throws_string (entityRef : EntityRefProp) (err : Error) :
  normalize entityRef = Throw err ->
  exists s, entityRef = RefString s /\ parseEntityRef s = Throw err.
Proof.
  destruct entityRef as [s|e|r]; [|discriminate..].
  unfold normalize. cbn. destruct (parseEntityRef s) as [parsed|err'] eqn:Hp.
  - discriminate.
  - cbn. intros [= ->]. exists s. done.
Qed.

(** X1: normalisation throws only for a string reference that
    [parseEntityRef] rejects, and then it throws the parser's error; an
    entity or a compound reference is always normalised. *)
Theorem normalize_throws_iff (entityRef : EntityRefProp) (err : Error) :
  normalize entityRef = Throw err
  <-> exists s, entityRef = RefString s /\ parseEntityRef s = Throw err.
Proof.
  split; [apply normalize_throws_string|].
  intros (s & -> & Hp). by apply normalize_string_throws.
Qed.

(** X2: when lower-casing is idempotent and leaves "default" alone, the
    kind and the namespace of a normalised triple are fixed by lower-casing,
    and the triple handed back as a compound reference is normalised to
    itself. *)
Theorem normalize_idempotent (entityRef : EntityRefProp) (t : EntityTriple) :
  (forall s, toLocaleLowerCase (toLocaleLowerCase s) = toLocaleLowerCase s) ->
  toLocaleLowerCase DEFAULT_NAMESPACE = DEFAULT_NAMESPACE ->
  normalize entityRef = Ok t ->
  toLocaleLowerCase (Triple.kind t) = Triple.kind t
  /\ toLocaleLowerCase (Triple.namespace t) = Triple.namespace t
  /\ normalize (RefCompound (tripleRef t)) = Ok t.
Proof.
  intros Hidem Hdefault (kind & namespace & name & _ & ->)%normalize_ok_fields.
  assert (toLocaleLowerCase (lowerNamespace namespace) = lowerNamespace namespace)
    as Hns by (destruct namespace; [apply Hidem|exact Hdefault]).
  split; [apply Hidem|]. split; [exact Hns|].
  unfold normalize, tripleRef, lowerNamespace at 1. cbn.
  rewrite Hidem, Hns. reflexivity.
Qed.

(** X3: two references are normalised to the same triple exactly when
    their kinds agree after lower-casing, their namespaces agree after
    lower-casing and defaulting, and their names are equal as written. *)
Theorem normalize_equal_iff (ref1 ref2 : EntityRefProp)
    (kind1 kind2 : string) (ns1 ns2 : option string) (name1 name2 : string) :
  rawFields ref1 = Ok (kind1, ns1, name1) ->
  rawFields ref2 = Ok (kind2, ns2, name2) ->
  (normalize ref1 = normalize ref2
   <-> toLocaleLowerCase kind1 = toLocaleLowerCase kind2
       /\ lowerNamespace ns1 = lowerNamespace ns2
       /\ name1 = name2).
Proof.
  intros Hraw1 Hraw2.
  rewrite (normalize_fields _ _ _ _ Hraw1), (normalize_fields _ _ _ _ Hraw2).
  split.
  - intros [= Hk Hns Hn]. done.
  - intros (-> & -> & ->). reflexivity.
Qed.

End NormalisationMore.

Lemma normalize_throws_iff_witness :
  @normalize asciiModel (RefString "no-kind")
  = Throw (CatalogModel.parseError "no-kind").
Proof.
  apply (@normalize_throws_iff asciiModel). exists "no-kind". split; reflexivity.
Defined.

Lemma normalize_idempotent_witness :
  @normalize asciiModel (RefEntity (sampleEntity "Component" None None))
    = Ok {| Triple.kind := "component"; Triple.namespace := "default";
            Triple.name := "sample" |}
  /\ @normalize asciiModel
       (RefCompound {| Ref.kind := "component"; Ref.namespace := Some "default";
                       Ref.name := "sample" |})
     = Ok {| Triple.kind := "component"; Triple.namespace := "default";
             Triple.name := "sample" |}.
Proof.
  split; [reflexivity|].
  apply (@normalize_idempotent asciiModel
           (RefEntity (sampleEntity "Component" None None))
           {| Triple.kind := "component"; Triple.namespace := "default";
              Triple.name := "sample" |}
           asciiLowerCase_idempotent eq_refl eq_refl).
Defined.

Lemma normalize_equal_iff_witness :
  @normalize asciiModel (RefEntity (sampleEntity "Component" None None))
  = @normalize asciiModel
      (RefCompound {| Ref.kind := "COMPONENT"; Ref.namespace := Some "Default";
                      Ref.name := "sample" |}).
Proof.
  apply (@normalize_equal_iff asciiModel
           (RefEntity (sampleEntity "Component" None None))
           (RefCompound {| Ref.kind := "COMPONENT"; Ref.namespace := Some "Default";
                           Ref.name := "sample" |})
           "Component" "COMPONENT" None (Some "Default") "sample" "sample"
           eq_refl eq_refl).
  repeat split.
Defined.

(** ** Rendering: the chip box, failures of the render, link and popover *)

(** X4: without a tag list the chip box is empty; with one to four tags it
    holds the chips of all the tags, in order, and nothing else; a text node
    appears in it exactly when the tag list is there and empty. *)
Theorem chip_box_small (tags : option (list string)) :
  (tags = None -> chipBox tags = [])
  /\ (forall l, tags = Some l -> 0 < length l <= maxTagChips ->
        chipBox tags = Chip <$> l)
  /\ ((exists s, Text s ∈ chipBox tags) <-> tags = Some []).
Proof.
  split; [intros ->; reflexivity|]. split.
  - intros l -> [Hpos Hle]. rewrite chipBox_some.
    rewrite decide_False by lia. rewrite decide_False by lia.
    rewrite app_nil_r, take_ge by lia. reflexivity.
  - split.
    + intros [s Hin]. destruct tags as [l|].
      * rewrite chipBox_some in Hin.
        destruct (decide (length l = 0)) as [Hz|Hnz].
        { destruct l; [reflexivity|discriminate]. }
        apply elem_of_app in Hin as [Hin|Hin].
        { apply list_elem_of_fmap in Hin as (t & Heq & _). discriminate. }
        destruct (decide (maxTagChips < length l)).
        { apply list_elem_of_singleton in Hin. discriminate. }
        { apply elem_of_nil in Hin. done. }
      * apply elem_of_nil in Hin. done.
    + intros ->. exists "0". apply list_elem_of_singleton. reflexivity.
Qed.

Lemma chip_box_small_witness :
  chipBox (Some ["a"; "b"; "c"; "d"]) = [Chip "a"; Chip "b"; Chip "c"; Chip "d"].
Proof.
  apply (proj1 (proj2 (chip_box_small (Some ["a"; "b"; "c"; "d"]))) _ eq_refl).
  unfold maxTagChips. cbn. lia.
Defined.

Section RenderingMore.
Context `{Imports}.

Lemma renderPopover_fields (opened : bool) (entityRef : EntityTriple)
    (st : AsyncState) (view : PopoverView) :
  renderPopover opened entityRef st = Ok view ->
  open view = opened
  /\ progress view = (if loading st then [Progress] else [])
  /\ headline view = (Triple.namespace entityRef, Triple.name entityRef)
  /\ alert view = from_option (fun e => [Alert "warning" (message e)]) [] (error st)
  /\ content view = body (value st).
Proof.
  unfold renderPopover. destruct (mailGuard (value st)) as [v|err]; cbn.
  - intros [= <-]. done.
  - discriminate.
Qed.

Lemma renderPopover_throws (opened : bool) (entityRef : EntityTriple)
    (st : AsyncState) (err : Error) :
  renderPopover opened entityRef st = Throw err <-> mailGuard (value st) = Throw err.
Proof.
  unfold renderPopover. destruct (mailGuard (value st)) as [v|err']; cbn.
  - split; discriminate.
  - split; intros [= ->]; reflexivity.
Qed.

(** X5: the render of the popover throws exactly when a user or group
    entity without a [spec] is stored: reading [profile] off the missing
    [spec] throws.  Without a stored entity the render never throws. *)
Theorem popover_throws_iff (opened : bool) (entityRef : EntityTriple)
    (st : AsyncState) (err : Error) :
  renderPopover opened entityRef st = Throw err
  <-> exists e, value st = Some e
                /\ isUserEntity e || isGroupEntity e = true
                /\ Entity.spec e = None
                /\ profileEmail e = Throw err.
Proof.
  rewrite renderPopover_throws. split.
  - destruct (value st) as [e|]; [|discriminate].
    rewrite mailGuard_loaded. intros Hthrow. exists e.
    destruct (isUserEntity e || isGroupEntity e); [|discriminate].
    destruct (Entity.spec e) as [s|] eqn:Hspec.
    + destruct (contactEmail e) as [m|]; [|discriminate].
      destruct (decide (m = "")); discriminate.
    + done.
  - intros (e & -> & Hcls & Hspec & Hthrow).
    rewrite mailGuard_loaded, Hcls, Hspec. exact Hthrow.
Qed.

(** X6: a successful render of [EntityRefLink] routes the link to the
    normalised reference and hands that same triple to the popover: the
    headline shows its namespace and name, the action row has at most two
    entries and ends with the details link to it, and the popover is open
    exactly when the popup state is. *)
Theorem link_and_popover_agree (props : EntityRefLinkProps) (c : Component)
    (view : LinkView) :
  EntityRefLink props c = Ok view ->
  normalize (entityRef props) = Ok (to view)
  /\ open (popover view) = isOpen c
  /\ headline (popover view) = (Triple.namespace (to view), Triple.name (to view))
  /\ last (actions (popover view)) = Some (Tooltip "Show details" (Link (to view)))
  /\ length (actions (popover view)) <= 2.
Proof.
  unfold EntityRefLink.
  destruct (normalize (entityRef props)) as [ref|err]; [|discriminate]. cbn.
  destruct (renderPopover (isOpen c) ref (state c)) as [pop|err] eqn:Hpop;
    [|discriminate].
  cbn. intros [= <-]. cbn.
  destruct (renderPopover_fields _ _ _ _ Hpop) as (Hopen & _ & Hhead & _).
  destruct (renderPopover_actions _ _ _ _ Hpop) as (v & _ & Hact).
  repeat split; try done.
  - rewrite Hact, last_snoc. reflexivity.
  - rewrite Hact, length_app. destruct v; cbn; lia.
Qed.

(** X7: the render of [EntityRefLink] throws in two cases only: the
    reference is a string that [parseEntityRef] rejects, or the reference
    is normalised and the popover throws on the stored entity. *)
Theorem link_throws_iff (props : EntityRefLinkProps) (c : Component) (err : Error) :
  EntityRefLink props c = Throw err
  <-> (exists s, entityRef props = RefString s /\ parseEntityRef s = Throw err)
      \/ (exists ref, normalize (entityRef props) = Ok ref
                      /\ renderPopover (isOpen c) ref (state c) = Throw err).
Proof.
  unfold EntityRefLink. split.
  - destruct (normalize (entityRef props)) as [ref|err'] eqn:Hnorm; cbn.
    + destruct (renderPopover (isOpen c) ref (state c)) as [pop|err'] eqn:Hpop;
        [discriminate|].
      cbn. intros [= ->]. right. exists ref. done.
    + intros [= ->]. left. by apply normalize_throws_string.
  - intros [(s & Hs & Hp)|(ref & Hnorm & Hpop)].
    + rewrite Hs, (normalize_string_throws s err Hp). reflexivity.
    + rewrite Hnorm. cbn. rewrite Hpop. reflexivity.
Qed.

End RenderingMore.

Lemma popover_throws_iff_witness :
  let e := {| Entity.kind := "User";
              Entity.metadata := {| Metadata.namespace := None;
                                    Metadata.name := "jdoe";
                                    Metadata.description := None;
                                    Metadata.tags := None |};
              Entity.spec := None |} in
  exists err, @renderPopover asciiModel true sampleRef (loaded e) = Throw err.
Proof.
  intros e. eexists.
  apply (@popover_throws_iff asciiModel). exists e. repeat split.
Defined.

Lemma link_and_popover_agree_witness :
  let props := {| entityRef := RefString "Component:Default/MyName";
                  defaultKind := None; title := None; children := None |} in
  exists view,
    @EntityRefLink asciiModel props initial = Ok view
    /\ headline (popover view) = ("default", "MyName")
    /\ last (actions (popover view)) = Some (Tooltip "Show details" (Link (to view))).
Proof.
  intros props. eexists. split; [reflexivity|].
  match goal with
  | |- context [popover ?v] =>
      destruct (@link_and_popover_agree asciiModel props initial v eq_refl)
        as (_ & _ & Hhead & Hlast & _)
  end.
  split; [exact Hhead|exact Hlast].
Defined.

Lemma link_throws_iff_witness :
  let props := {| entityRef := RefString "no-kind"; defaultKind := None;
                  title := None; children := None |} in
  @EntityRefLink asciiModel props initial
  = Throw (CatalogModel.parseError "no-kind").
Proof.
  intros props. apply (@link_throws_iff asciiModel). left.
  exists "no-kind". split; reflexivity.
Defined.

(** ** The fetch: what is stored, what is in flight, what is looked up *)

(** An entity and an error are never stored together. *)
Lemma exclusive_settled (r : result (option Entity)) :
  value (settled r) = None \/ error (settled r) = None.
Proof. destruct r; cbn; auto. Qed.

Lemma exclusive_step (c : Component) (ev : Event) :
  value (state c) = None \/ error (state c) = None ->
  value (state (step c ev)) = None \/ error (state (step c ev)) = None.
Proof.
  intros Hex. destruct ev as [opened|env|callId r|]; cbn.
  - destruct (mounted c); exact Hex.
  - destruct (mounted c); [|exact Hex]. unfold effect.
    destruct (guard c); exact Hex.
  - unfold settle. destruct (promises c !! callId) as [call|]; [|exact Hex].
    cbn. destruct (mounted c && Nat.eqb callId (lastCallId c));
      [apply exclusive_settled|exact Hex].
  - exact Hex.
Qed.

Lemma exclusive_run (c : Component) (evs : list Event) :
  value (state c) = None \/ error (state c) = None ->
  value (state (run c evs)) = None \/ error (state (run c evs)) = None.
Proof.
  revert c. induction evs as [|ev evs IH]; intros c Hex; [exact Hex|].
  rewrite run_cons. apply IH, exclusive_step, Hex.
Qed.

Section ViewStates.
Context `{Imports}.

(** X8: whatever happened to the component, a rendered popover shows at
    most one of the progress bar, the warning and the entity summary. *)
Theorem view_states_exclusive (evs : list Event) (opened : bool)
    (entityRef : EntityTriple) (view : PopoverView) :
  renderPopover opened entityRef (state (run initial evs)) = Ok view ->
  (progress view = [] \/ (alert view = [] /\ content view = Skeletons))
  /\ (alert view = [] \/ content view = Skeletons).
Proof.
  intros (_ & Hprogress & _ & Halert & Hcontent)%renderPopover_fields.
  set (c := run initial evs) in *.
  assert (consistent c) as Hc by apply consistent_run, consistent_initial.
  assert (value (state c) = None \/ error (state c) = None) as Hex
    by (apply exclusive_run; left; reflexivity).
  rewrite Hprogress, Halert, Hcontent. split.
  - destruct (loading (state c)) eqn:Hl; [right|left; reflexivity].
    destruct (value (state c)) as [e|] eqn:Hv.
    { rewrite (cached_idle c Hc) in Hl; [discriminate|].
      left. rewrite Hv. eauto. }
    destruct (error (state c)) as [err|] eqn:He.
    { rewrite (cached_idle c Hc) in Hl; [discriminate|].
      right. rewrite He. eauto. }
    done.
  - destruct Hex as [->| ->]; [right|left]; reflexivity.
Qed.


End ViewStates.

Lemma view_states_exclusive_witness :
  exists view,
    @renderPopover asciiModel true sampleRef
      (state (run initial [Hover true; Render sampleEnv])) = Ok view
    /\ progress view = [Progress]
    /\ alert view = [] /\ content view = Skeletons.
Proof.
  eexists. split; [reflexivity|]. split; [reflexivity|].
  match goal with
  | |- alert ?v = _ /\ _ =>
      destruct (proj1 (@view_states_exclusive asciiModel
                         [Hover true; Render sampleEnv] true sampleRef v eq_refl))
        as [Hnone|Hboth]
  end.
  - discriminate Hnone.
  - exact Hboth.
Defined.


(** X10: at any time at most one fetch is in flight, and while the
    component is mounted [loading] is set exactly when one is. *)
Theorem one_fetch_in_flight (evs : list Event) :
  let c := run initial evs in
  size (promises c) <= 1
  /\ (mounted c = true -> (loading (state c) = true <-> promises c <> ∅)).
Proof.
  intros c.
  assert (consistent c) as Hc by apply consistent_run, consistent_initial.
  split.
  - destruct (promises c !! lastCallId c) as [call|] eqn:Hlast.
    + assert (promises c = {[lastCallId c := call]}) as ->.
      { apply map_eq. intros callId.
        destruct (decide (callId = lastCallId c)) as [->|Hne].
        - rewrite lookup_singleton_eq. exact Hlast.
        - rewrite lookup_singleton_ne by done.
          destruct (promises c !! callId) as [call'|] eqn:Hp; [|reflexivity].
          destruct (inflight_latest c Hc _ _ Hp) as [-> _]. done. }
      rewrite map_size_singleton. lia.
    + assert (promises c = ∅) as ->.
      { apply map_empty. intros callId.
        destruct (promises c !! callId) as [call'|] eqn:Hp; [|reflexivity].
        destruct (inflight_latest c Hc _ _ Hp) as [-> _]. congruence. }
      rewrite map_size_empty. lia.
  - intros Hm. split.
    + intros Hl Hempty. destruct (loading_inflight c Hc Hm Hl) as [call Hcall].
      rewrite Hempty, lookup_empty in Hcall. discriminate.
    + intros Hne. destruct (loading (state c)) eqn:Hl; [reflexivity|].
      destruct Hne. by apply idle_no_promises.
Qed.

Lemma one_fetch_in_flight_witness :
  let c := run initial [Hover true; Render sampleEnv; Hover false; Hover true;
                        Render sampleEnv] in
  mounted c = true /\ loading (state c) = true /\ promises c <> ∅.
Proof.
  intros c. split; [reflexivity|]. split; [reflexivity|].
  apply (proj2 (one_fetch_in_flight
                  [Hover true; Render sampleEnv; Hover false; Hover true;
                   Render sampleEnv]) eq_refl).
  reflexivity.
Defined.

(** As long as the popover was never opened nothing is fetched. *)
Lemma unopened_step (c : Component) (ev : Event) :
  ev <> Hover true ->
  isOpen c = false /\ lastCallId c = 0 /\ lookups c = [] /\ promises c = ∅
    /\ state c = state initial ->
  isOpen (step c ev) = false /\ lastCallId (step c ev) = 0
    /\ lookups (step c ev) = [] /\ promises (step c ev) = ∅
    /\ state (step c ev) = state initial.
Proof.
  intros Hev (Ho & Hid & Hl & Hp & Hs).
  destruct ev as [[]|env|callId r|]; cbn.
  - done.
  - destruct (mounted c); done.
  - destruct (mounted c); [|done]. unfold effect, guard. rewrite Ho. done.
  - unfold settle. rewrite Hp, lookup_empty. done.
  - done.
Qed.

Lemma unopened_run (evs : list Event) (c : Component) :
  Hover true ∉ evs ->
  isOpen c = false /\ lastCallId c = 0 /\ lookups c = [] /\ promises c = ∅
    /\ state c = state initial ->
  isOpen (run c evs) = false /\ lastCallId (run c evs) = 0
    /\ lookups (run c evs) = [] /\ promises (run c evs) = ∅
    /\ state (run c evs) = state initial.
Proof.
  revert c. induction evs as [|ev evs IH]; intros c Hnever Hc; [exact Hc|].
  rewrite run_cons. apply not_elem_of_cons in Hnever as [Hev Hnever].
  apply (IH _ Hnever). apply unopened_step; [congruence|exact Hc].
Qed.

(** X11: the fetch is lazy: over any sequence of events in which the
    popover is never opened, [load] is never called, no lookup is issued and
    the stored state stays the initial one. *)
Theorem no_fetch_before_open (evs : list Event) :
  Hover true ∉ evs ->
  let c := run initial evs in
  lastCallId c = 0 /\ lookups c = [] /\ promises c = ∅
  /\ state c = {| loading := false; error := None; value := None |}.
Proof.
  intros Hnever c.
  destruct (unopened_run evs initial Hnever) as (_ & Hrest); [done|exact Hrest].
Qed.

Lemma no_fetch_before_open_witness :
  let evs := [Render sampleEnv; Hover false; Render sampleEnv; Unmount] in
  lookups (run initial evs) = [] /\ lastCallId (run initial evs) = 0.
Proof.
  intros evs.
  assert (Hover true ∉ evs) as Hnever.
  { intros Hin. repeat (apply elem_of_cons in Hin as [Hin|Hin]; [discriminate|]).
    by apply elem_of_nil in Hin. }
  destruct (no_fetch_before_open evs Hnever) as (Hid & Hl & _).
  split; [exact Hl|exact Hid].
Defined.

Lemma lookups_step (c : Component) (ev : Event) (r : EntityTriple) :
  r ∈ lookups (step c ev) ->
  r ∈ lookups c
  \/ exists env, ev = Render env /\ hasCatalogApi env = true /\ popoverRef env = r.
Proof.
  destruct ev as [opened|env|callId resp|]; cbn.
  - destruct (mounted c); auto.
  - destruct (mounted c); [|auto]. unfold effect.
    destruct (guard c); [|auto]. cbn. unfold loadStart.
    intros [Hin|Hin]%elem_of_app; [auto|].
    destruct (hasCatalogApi env) eqn:Hapi; cbn in Hin.
    + apply list_elem_of_singleton in Hin. right. exists env. done.
    + by apply elem_of_nil in Hin.
  - unfold settle. destruct (promises c !! callId); auto.
  - auto.
Qed.

(** X12: every catalog lookup is for the [entityRef] prop of a render that
    had a catalog client: the component never looks up a reference it was
    not given. *)
Theorem lookups_come_from_renders (evs : list Event) (r : EntityTriple) :
  r ∈ lookups (run initial evs) ->
  exists env, Render env ∈ evs /\ hasCatalogApi env = true /\ popoverRef env = r.
Proof.
  assert (forall c, r ∈ lookups (run c evs) ->
            r ∈ lookups c
            \/ exists env, Render env ∈ evs /\ hasCatalogApi env = true
                           /\ popoverRef env = r) as Hgen.
  { induction evs as [|ev evs IH]; intros c Hin; [left; exact Hin|].
    rewrite run_cons in Hin.
    destruct (IH _ Hin) as [Hstep|(env & Hev & Hapi & Href)].
    - destruct (lookups_step c ev r Hstep) as [Hc|(env & -> & Hapi & Href)];
        [left; exact Hc|].
      right. exists env. split; [apply elem_of_cons; left; reflexivity|done].
    - right. exists env. split; [apply elem_of_cons; right; exact Hev|done]. }
  intros Hin. destruct (Hgen initial Hin) as [Hnil|Hfound]; [|exact Hfound].
  by apply elem_of_nil in Hnil.
Qed.

Lemma lookups_come_from_renders_witness :
  let evs := [Hover true; Render noApiEnv; Settle 1 (Resolves None); Render sampleEnv] in
  sampleRef ∈ lookups (run initial evs)
  /\ exists env, Render env ∈ evs /\ hasCatalogApi env = true
                 /\ popoverRef env = sampleRef.
Proof.
  intros evs.
  assert (sampleRef ∈ lookups (run initial evs)) as Hin
    by (apply list_elem_of_singleton; reflexivity).
  split; [exact Hin|]. exact (lookups_come_from_renders evs sampleRef Hin).
Defined.
